(** * The Swift binding header of tree-sitter-snail

    Source: [extras/tree-sitter-snail/bindings/swift/TreeSitterSnail/snail.h].

    The header is embedded as the text it is, and given meaning by the
    three stages a C compiler applies to it: splitting into lines and
    preprocessing tokens, conditional inclusion ([#ifndef], [#ifdef],
    [#define], [#endif]) against a set of defined macro names, and the
    reading of the surviving tokens as external declarations.  What a
    caller may then write with the handle is given by the constraints of
    C on the expressions that start from the call. *)

From Stdlib Require Import Ascii String.
From stdpp Require Import base decidable option list strings gmap.

Local Open Scope string_scope.

(** ** The text of the header *)

Module Header.

(** Line feed and the double quote, written by their codes. *)
Definition LF : ascii := "010"%char.
Definition DQ : ascii := "034"%char.

Definition nl : string := String LF EmptyString.
Definition dq : string := String DQ EmptyString.

(** [snail.h], byte for byte. The last line carries no line feed. *)
Definition snail_h : string :=
  "#ifndef TREE_SITTER_SNAIL_H_" +:+ nl +:+
  "#define TREE_SITTER_SNAIL_H_" +:+ nl +:+
  nl +:+
  "typedef struct TSLanguage TSLanguage;" +:+ nl +:+
  nl +:+
  "#ifdef __cplusplus" +:+ nl +:+
  "extern " +:+ dq +:+ "C" +:+ dq +:+ " {" +:+ nl +:+
  "#endif" +:+ nl +:+
  nl +:+
  "const TSLanguage *tree_sitter_snail(void);" +:+ nl +:+
  nl +:+
  "#ifdef __cplusplus" +:+ nl +:+
  "}" +:+ nl +:+
  "#endif" +:+ nl +:+
  nl +:+
  "#endif // TREE_SITTER_SNAIL_H_".

(** The macro that guards the header against a second inclusion. *)
Definition TREE_SITTER_SNAIL_H_ : string := "TREE_SITTER_SNAIL_H_".

(** ** Lines *)

Definition is_empty (s : string) : bool :=
  match s with
  | EmptyString => true
  | String _ _ => false
  end.

(** [lines_from cur s] cuts [s] at every line feed; [cur] is the part of
    the current line read so far.  Text left after the last line feed is
    a line too, though an unterminated one; nothing left is no line. *)
Fixpoint lines_from (cur : string) (s : string) : list string :=
  match s with
  | EmptyString => if is_empty cur then [] else [cur]
  | String c r =>
      if Ascii.eqb c LF then cur :: lines_from EmptyString r
      else lines_from (cur +:+ String c EmptyString) r
  end.

Definition lines (s : string) : list string := lines_from EmptyString s.

(** Number of line feed characters of a text. *)
Fixpoint count_lf (s : string) : nat :=
  match s with
  | EmptyString => 0
  | String c r => (if Ascii.eqb c LF then 1 else 0) + count_lf r
  end.

(** What stands after the last line feed. *)
Fixpoint last_segment (cur : string) (s : string) : string :=
  match s with
  | EmptyString => cur
  | String c r =>
      if Ascii.eqb c LF then last_segment EmptyString r
      else last_segment (cur +:+ String c EmptyString) r
  end.

End Header.

(** ** Preprocessing tokens *)

Module Lex.
Import Header.

(** The tokens the header is made of: identifiers (keywords included),
    string literals (kept without their quotes) and one-character
    punctuators. *)
Inductive token : Type :=
  | TIdent (s : string)
  | TStr (s : string)
  | TPunct (c : ascii).

#[global] Instance token_eq_dec : EqDecision token.
Proof. solve_decision. Defined.

Definition between (lo hi : nat) (c : ascii) : bool :=
  (lo <=? nat_of_ascii c)%nat && (nat_of_ascii c <=? hi)%nat.

(** Letters and the underscore start an identifier; digits continue one. *)
Definition ident_start (c : ascii) : bool :=
  between 65 90 c || between 97 122 c || Ascii.eqb c "_"%char.

Definition ident_char (c : ascii) : bool :=
  ident_start c || between 48 57 c.

(** Space, horizontal tab, carriage return. *)
Definition blank (c : ascii) : bool :=
  Ascii.eqb c " "%char || Ascii.eqb c "009"%char || Ascii.eqb c "013"%char.

Definition snoc (s : string) (c : ascii) : string := s +:+ String c EmptyString.

(** What the lexer is in the middle of. *)
Inductive mode : Type :=
  | MNone
  | MIdent (acc : string)
  | MStr (acc : string).

Definition flush (m : mode) : list token :=
  match m with
  | MIdent a => [TIdent a]
  | _ => []
  end.

Definition starts_with (c : ascii) (s : string) : bool :=
  match s with
  | String d _ => Ascii.eqb c d
  | EmptyString => false
  end.

(** [lex_from m s] tokenises one line.  A [//] comment runs to the end of
    the line; a string literal left open is an error. *)
Fixpoint lex_from (m : mode) (s : string) : option (list token) :=
  match s with
  | EmptyString =>
      match m with
      | MStr _ => None
      | _ => Some (flush m)
      end
  | String c r =>
      match m with
      | MStr a =>
          if Ascii.eqb c DQ then cons (TStr a) <$> lex_from MNone r
          else lex_from (MStr (snoc a c)) r
      | MIdent a =>
          if ident_char c then lex_from (MIdent (snoc a c)) r
          else if Ascii.eqb c DQ then cons (TIdent a) <$> lex_from (MStr EmptyString) r
          else if blank c then cons (TIdent a) <$> lex_from MNone r
          else if Ascii.eqb c "/"%char && starts_with "/"%char r then Some [TIdent a]
          else (fun ts => TIdent a :: TPunct c :: ts) <$> lex_from MNone r
      | MNone =>
          if ident_start c then lex_from (MIdent (String c EmptyString)) r
          else if Ascii.eqb c DQ then lex_from (MStr EmptyString) r
          else if blank c then lex_from MNone r
          else if Ascii.eqb c "/"%char && starts_with "/"%char r then Some []
          else cons (TPunct c) <$> lex_from MNone r
      end
  end.

Definition lex_line (s : string) : option (list token) := lex_from MNone s.

(** A line of a source file after tokenisation: a directive of the
    preprocessor or a line of text. *)
Inductive line : Type :=
  | LIfndef (m : string)
  | LIfdef (m : string)
  | LDefine (m : string) (body : list token)
  | LEndif
  | LText (ts : list token).

(** A line whose first token is [#] is a directive; the four directives of
    the header are understood, any other is refused. *)
Definition classify (ts : list token) : option line :=
  match ts with
  | TPunct c :: rest =>
      if Ascii.eqb c "#"%char then
        match rest with
        | [TIdent d] => if String.eqb d "endif" then Some LEndif else None
        | TIdent d :: TIdent m :: body =>
            if String.eqb d "define" then Some (LDefine m body)
            else
              match body with
              | [] =>
                  if String.eqb d "ifndef" then Some (LIfndef m)
                  else if String.eqb d "ifdef" then Some (LIfdef m)
                  else None
              | _ :: _ => None
              end
        | _ => None
        end
      else Some (LText ts)
  | _ => Some (LText ts)
  end.

Definition read_line (s : string) : option line := lex_line s ≫= classify.

(** The whole file, line by line. *)
Definition read_file (s : string) : option (list line) :=
  mapM read_line (lines s).

End Lex.

(** ** Conditional inclusion *)

Module Cpp.
Import Header Lex.

Inductive error : Type :=
  | EUnreadable                  (* a line the lexer or [classify] refuses *)
  | EEndifWithoutIf              (* [#endif] with no group open *)
  | EUnterminatedIf              (* end of file inside a group *)
  | EMacroInText (x : string)    (* text names a defined macro *)
  | ESyntax.                     (* the tokens are no list of declarations *)

Inductive result (A : Type) : Type :=
  | Ok (a : A)
  | Err (e : error).
Arguments Ok {A} a.
Arguments Err {A} e.

#[global] Instance result_ret : MRet result := fun _ a => Ok a.
#[global] Instance result_bind : MBind result := fun _ _ f m =>
  match m with
  | Ok a => f a
  | Err e => Err e
  end.

#[global] Instance result_fmap : FMap result := fun _ _ f m =>
  match m with
  | Ok a => Ok (f a)
  | Err e => Err e
  end.

Definition of_option {A} (e : error) (o : option A) : result A :=
  match o with
  | Some a => Ok a
  | None => Err e
  end.

(** The state of the preprocessor inside a file: the names defined as
    macros, one flag per open conditional group (is the group being
    taken?) with the innermost first, and the tokens passed on so far. *)
Record state : Type := State {
  defined : gset string;
  conds : list bool;
  out : list token
}.

(** Text is passed on, and [#define] obeyed, when every enclosing group
    is taken.  A group is pushed with the conjunction already made, so
    the innermost flag decides. *)
Definition active (st : state) : bool :=
  match conds st with
  | [] => true
  | b :: _ => b
  end.

Definition is_defined (env : gset string) (x : string) : bool :=
  bool_decide (x ∈ env).

(** The first identifier of a line of text that is a defined macro.
    Replacing macros in text is outside this model: such a line is
    refused rather than passed on unexpanded. *)
Fixpoint macro_in (env : gset string) (ts : list token) : option string :=
  match ts with
  | [] => None
  | TIdent x :: r => if is_defined env x then Some x else macro_in env r
  | _ :: r => macro_in env r
  end.

Arguments is_defined : simpl never.

Definition pp_line (st : state) (l : line) : result state :=
  match l with
  | LIfndef m =>
      Ok (State (defined st) ((active st && negb (is_defined (defined st) m)) :: conds st) (out st))
  | LIfdef m =>
      Ok (State (defined st) ((active st && is_defined (defined st) m) :: conds st) (out st))
  | LDefine m _ =>
      if active st then Ok (State ({[ m ]} ∪ defined st) (conds st) (out st))
      else Ok st
  | LEndif =>
      match conds st with
      | [] => Err EEndifWithoutIf
      | _ :: cs => Ok (State (defined st) cs (out st))
      end
  | LText ts =>
      if active st then
        match macro_in (defined st) ts with
        | Some x => Err (EMacroInText x)
        | None => Ok (State (defined st) (conds st) (out st ++ ts))
        end
      else Ok st
  end.

Fixpoint pp_lines (st : state) (ls : list line) : result state :=
  match ls with
  | [] => Ok st
  | l :: r => st' ← pp_line st l; pp_lines st' r
  end.

Definition identifiers_of (ts : list token) : list string :=
  omap (fun t => match t with
                 | TIdent x => Some x
                 | _ => None
                 end) ts.

(** The identifiers of the text lines of a file, whether inside a
    conditional group or not. *)
Definition text_identifiers (text : string) : list string :=
  mjoin (map (fun l => match l with
                       | LText ts => identifiers_of ts
                       | _ => []
                       end) (default [] (read_file text))).

(** No identifier of the text of the file is a macro of [env]: the text
    means what it says. *)
Definition untouched (env : gset string) (text : string) : Prop :=
  Forall (fun x => x ∉ env) (text_identifiers text).

(** A file under an include guard [g]. *)
Definition guarded (g : string) (body : list line) : list line :=
  LIfndef g :: LDefine g [] :: body ++ [LEndif].

(** [balanced d ls]: read at nesting depth [d], the lines [ls] close every
    group open at their end, and never one that was not opened. *)
Fixpoint balanced (d : nat) (ls : list line) : bool :=
  match ls with
  | [] => Nat.eqb d 0
  | LIfndef _ :: r | LIfdef _ :: r => balanced (S d) r
  | LEndif :: r =>
      match d with
      | O => false
      | S d' => balanced d' r
      end
  | _ :: r => balanced d r
  end.

(** What an [#include] of a file does to the macros defined and the
    tokens passed on: the file is read with no group open and must close
    every group it opens. *)
Definition include_lines (ls : list line) (acc : gset string * list token)
  : result (gset string * list token) :=
  st ← pp_lines (State acc.1 [] acc.2) ls;
  match conds st with
  | [] => Ok (defined st, out st)
  | _ :: _ => Err EUnterminatedIf
  end.

Definition include (text : string) (acc : gset string * list token)
  : result (gset string * list token) :=
  ls ← of_option EUnreadable (read_file text);
  include_lines ls acc.

(** [n] inclusions of the same file, one after the other. *)
Fixpoint include_times (n : nat) (text : string) (acc : gset string * list token)
  : result (gset string * list token) :=
  match n with
  | O => Ok acc
  | S k => acc' ← include text acc; include_times k text acc'
  end.

(** Preprocessing of a translation unit that consists of [n] inclusions
    of [text], started with the macros [env] defined. *)
Definition preprocess (env : gset string) (n : nat) (text : string)
  : result (gset string * list token) :=
  include_times n text (env, []).

End Cpp.

(** ** External declarations *)

Module Decl.
Import Header Lex Cpp.

(** The types a declaration of this fragment of C can name. *)
Inductive ctype : Type :=
  | TyVoid
  | TyName (n : string)          (* a typedef name *)
  | TyStruct (tag : string)      (* [struct tag] *)
  | TyConst (t : ctype)          (* const-qualified [t] *)
  | TyPtr (t : ctype).           (* pointer to [t] *)

#[global] Instance ctype_eq_dec : EqDecision ctype.
Proof. solve_decision. Defined.

(** A parameter list: [(void)], the empty [()] of old-style C, or types. *)
Inductive params : Type :=
  | PVoid
  | PUnspecified
  | PTypes (ps : list ctype).

#[global] Instance params_eq_dec : EqDecision params.
Proof. solve_decision. Defined.

(** External declarations.  [linkage] is the innermost enclosing
    [extern "..." { }] block, if any. *)
Inductive decl : Type :=
  | DTypedef (t : ctype) (name : string)
  | DStructDecl (tag : string)
  | DStructDef (tag : string) (members : list token)
  | DObject (linkage : option string) (t : ctype) (name : string)
  | DFunction (linkage : option string) (ret : ctype) (name : string) (ps : params)
  | DFunctionDef (linkage : option string) (ret : ctype) (name : string) (ps : params)
      (body : list token).

Definition keywords : list string :=
  ["auto"; "break"; "case"; "char"; "const"; "continue"; "default"; "do";
   "double"; "else"; "enum"; "extern"; "float"; "for"; "goto"; "if";
   "inline"; "int"; "long"; "register"; "restrict"; "return"; "short";
   "signed"; "sizeof"; "static"; "struct"; "switch"; "typedef"; "union";
   "unsigned"; "void"; "volatile"; "while"].

(** The keywords that make statements: selection, iteration and jumps. *)
Definition control_keywords : list string :=
  ["if"; "else"; "switch"; "case"; "default"; "for"; "while"; "do";
   "goto"; "continue"; "break"; "return"].

Definition mem (x : string) (l : list string) : bool := existsb (String.eqb x) l.

Definition eat_ident (kw : string) (ts : list token) : option (list token) :=
  match ts with
  | TIdent x :: r => if String.eqb x kw then Some r else None
  | _ => None
  end.

Definition eat_punct (c : ascii) (ts : list token) : option (list token) :=
  match ts with
  | TPunct d :: r => if Ascii.eqb c d then Some r else None
  | _ => None
  end.

(** An identifier that is no keyword. *)
Definition take_name (ts : list token) : option (string * list token) :=
  match ts with
  | TIdent x :: r => if mem x keywords then None else Some (x, r)
  | _ => None
  end.

Definition take_str (ts : list token) : option (string * list token) :=
  match ts with
  | TStr x :: r => Some (x, r)
  | _ => None
  end.

(** [void], [struct tag] or a typedef name. *)
Definition parse_base (ts : list token) : option (ctype * list token) :=
  match eat_ident "void" ts with
  | Some r => Some (TyVoid, r)
  | None =>
      match eat_ident "struct" ts with
      | Some r => '(tag, r') ← take_name r; Some (TyStruct tag, r')
      | None => '(n, r) ← take_name ts; Some (TyName n, r)
      end
  end.

(** Declaration specifiers: a base type with [const] before or after. *)
Definition parse_spec (ts : list token) : option (ctype * list token) :=
  match eat_ident "const" ts with
  | Some r => '(t, r') ← parse_base r; Some (TyConst t, r')
  | None =>
      '(t, r) ← parse_base ts;
      match eat_ident "const" r with
      | Some r' => Some (TyConst t, r')
      | None => Some (t, r)
      end
  end.

(** The pointer part of a declarator: each [*] makes a pointer to what
    stands on its left, a [const] after it qualifies that pointer. *)
Fixpoint parse_ptrs (t : ctype) (ts : list token) : ctype * list token :=
  match ts with
  | TPunct c :: r =>
      if Ascii.eqb c "*"%char then parse_ptrs (TyPtr t) r else (t, ts)
  | TIdent x :: r =>
      if String.eqb x "const" then
        match t with
        | TyPtr _ => parse_ptrs (TyConst t) r
        | _ => (t, ts)
        end
      else (t, ts)
  | _ => (t, ts)
  end.

(** One parameter: specifiers, pointers and an optional name. *)
Definition parse_param (ts : list token) : option (ctype * list token) :=
  '(t, r) ← parse_spec ts;
  let '(t', r') := parse_ptrs t r in
  match take_name r' with
  | Some (_, r'') => Some (t', r'')
  | None => Some (t', r')
  end.

(** Parameters up to the closing parenthesis, separated by commas. *)
Fixpoint parse_param_list (fuel : nat) (ts : list token) : option (list ctype * list token) :=
  match fuel with
  | O => None
  | S f =>
      '(t, r) ← parse_param ts;
      match eat_punct ")"%char r with
      | Some r' => Some ([t], r')
      | None =>
          r' ← eat_punct ","%char r;
          '(ps, r'') ← parse_param_list f r';
          Some (t :: ps, r'')
      end
  end.

(** What follows the opening parenthesis of a function declarator. *)
Definition parse_params (ts : list token) : option (params * list token) :=
  match eat_punct ")"%char ts with
  | Some r => Some (PUnspecified, r)
  | None =>
      match eat_ident "void" ts ≫= eat_punct ")"%char with
      | Some r => Some (PVoid, r)
      | None => '(ps, r) ← parse_param_list (length ts) ts; Some (PTypes ps, r)
      end
  end.

(** The tokens up to the brace that closes the one just opened; [depth]
    counts the braces opened since. *)
Fixpoint take_block (depth : nat) (ts : list token) : option (list token * list token) :=
  match ts with
  | [] => None
  | TPunct c :: r =>
      if Ascii.eqb c "}"%char then
        match depth with
        | O => Some ([], r)
        | S d => '(b, r') ← take_block d r; Some (TPunct c :: b, r')
        end
      else if Ascii.eqb c "{"%char then
        '(b, r') ← take_block (S depth) r; Some (TPunct c :: b, r')
      else '(b, r') ← take_block depth r; Some (TPunct c :: b, r')
  | t :: r => '(b, r') ← take_block depth r; Some (t :: b, r')
  end.

(** One external declaration that starts with specifiers: an object, a
    function prototype or a function definition. *)
Definition parse_plain (linkage : option string) (ts : list token)
  : option (decl * list token) :=
  '(t, r) ← parse_spec ts;
  let '(t', r1) := parse_ptrs t r in
  '(name, r2) ← take_name r1;
  match eat_punct ";"%char r2 with
  | Some r3 => Some (DObject linkage t' name, r3)
  | None =>
      r3 ← eat_punct "("%char r2;
      '(ps, r4) ← parse_params r3;
      match eat_punct ";"%char r4 with
      | Some r5 => Some (DFunction linkage t' name ps, r5)
      | None =>
          r5 ← eat_punct "{"%char r4;
          '(body, r6) ← take_block 0 r5;
          Some (DFunctionDef linkage t' name ps body, r6)
      end
  end.

(** [struct tag;] or [struct tag { members };]. *)
Definition parse_struct (ts : list token) : option (decl * list token) :=
  r ← eat_ident "struct" ts;
  '(tag, r1) ← take_name r;
  match eat_punct ";"%char r1 with
  | Some r2 => Some (DStructDecl tag, r2)
  | None =>
      r2 ← eat_punct "{"%char r1;
      '(members, r3) ← take_block 0 r2;
      r4 ← eat_punct ";"%char r3;
      Some (DStructDef tag members, r4)
  end.

(** [typedef] specifiers, pointers and the new name. *)
Definition parse_typedef (ts : list token) : option (decl * list token) :=
  r ← eat_ident "typedef" ts;
  '(t, r1) ← parse_spec r;
  let '(t', r2) := parse_ptrs t r1 in
  '(name, r3) ← take_name r2;
  r4 ← eat_punct ";"%char r3;
  Some (DTypedef t' name, r4).

(** [extern "..." {], the opening of a linkage block. *)
Definition parse_linkage_open (ts : list token) : option (string * list token) :=
  r ← eat_ident "extern" ts;
  '(l, r1) ← take_str r;
  r2 ← eat_punct "{"%char r1;
  Some (l, r2).

(** The declarations of a token stream.  [blocks] holds the linkage
    blocks open, the innermost first; each round takes at least one
    token, so a fuel of one more than the number of tokens suffices. *)
Fixpoint parse_decls (fuel : nat) (blocks : list string) (ts : list token)
  : option (list decl) :=
  match fuel with
  | O => None
  | S f =>
      match ts with
      | [] =>
          match blocks with
          | [] => Some []
          | _ :: _ => None
          end
      | _ :: _ =>
          match parse_linkage_open ts with
          | Some (l, r) => parse_decls f (l :: blocks) r
          | None =>
              match eat_punct "}"%char ts with
              | Some r =>
                  match blocks with
                  | [] => None
                  | _ :: bs => parse_decls f bs r
                  end
              | None =>
                  match parse_typedef ts with
                  | Some (d, r) => cons d <$> parse_decls f blocks r
                  | None =>
                      match parse_struct ts with
                      | Some (d, r) => cons d <$> parse_decls f blocks r
                      | None =>
                          '(d, r) ← parse_plain (head blocks) ts;
                          cons d <$> parse_decls f blocks r
                      end
                  end
              end
          end
      end
  end.

Definition declarations (ts : list token) : option (list decl) :=
  parse_decls (S (length ts)) [] ts.

(** The translation unit made of [n] inclusions of [text], compiled with
    the macros [env] predefined. *)
Definition translation_unit (env : gset string) (n : nat) (text : string)
  : result (list decl) :=
  '(_, ts) ← preprocess env n text;
  of_option ESyntax (declarations ts).

(** *** What a list of declarations declares *)

(** The signature of a function: name, parameters, return type. *)
Record signature : Type := Signature {
  sig_name : string;
  sig_params : params;
  sig_ret : ctype
}.

#[global] Instance signature_eq_dec : EqDecision signature.
Proof. solve_decision. Defined.

(** The functions declared, with or without a body. *)
Definition function_of (d : decl) : option signature :=
  match d with
  | DFunction _ ret name ps => Some (Signature name ps ret)
  | DFunctionDef _ ret name ps _ => Some (Signature name ps ret)
  | _ => None
  end.

Definition functions (ds : list decl) : list signature := omap function_of ds.

(** The objects (variables) declared. *)
Definition object_of (d : decl) : option string :=
  match d with
  | DObject _ _ name => Some name
  | _ => None
  end.

Definition objects (ds : list decl) : list string := omap object_of ds.

(** Everything a linker could resolve: functions and objects. *)
Definition entry_points (ds : list decl) : list string :=
  omap (fun d => match d with
                 | DObject _ _ name => Some name
                 | DFunction _ _ name _ => Some name
                 | DFunctionDef _ _ name _ _ => Some name
                 | _ => None
                 end) ds.

(** Function bodies, the only place of a C file where statements live. *)
Definition bodies (ds : list decl) : list (list token) :=
  omap (fun d => match d with
                 | DFunctionDef _ _ _ _ body => Some body
                 | _ => None
                 end) ds.

(** The struct tags a type mentions. *)
Fixpoint tags_of (t : ctype) : list string :=
  match t with
  | TyStruct tag => [tag]
  | TyConst t' | TyPtr t' => tags_of t'
  | TyVoid | TyName _ => []
  end.

(** Struct tags given a member list. *)
Definition struct_definitions (ds : list decl) : list string :=
  omap (fun d => match d with
                 | DStructDef tag _ => Some tag
                 | _ => None
                 end) ds.

(** Struct tags introduced without a member list: by [struct tag;] or by
    a mention in a typedef. *)
Definition struct_forward_declarations (ds : list decl) : list string :=
  mjoin (map (fun d => match d with
                       | DStructDecl tag => [tag]
                       | DTypedef t _ => tags_of t
                       | _ => []
                       end) ds).

(** The typedef names, each with the type it stands for. *)
Definition typedefs (ds : list decl) : list (string * ctype) :=
  omap (fun d => match d with
                 | DTypedef t name => Some (name, t)
                 | _ => None
                 end) ds.

Definition lookup_typedef (ds : list decl) (n : string) : option ctype :=
  snd <$> find (fun p => String.eqb (fst p) n) (typedefs ds).

Definition lookup_function (ds : list decl) (n : string) : option signature :=
  find (fun s => String.eqb (sig_name s) n) (functions ds).

(** *** Complete, const-qualified and modifiable types *)

Fixpoint type_size (t : ctype) : nat :=
  match t with
  | TyConst t' | TyPtr t' => S (type_size t')
  | _ => 1
  end.

(** [expand fuel ds t] replaces the typedef names of [t] by the types
    they stand for.  A name without a typedef stays. *)
Fixpoint expand (fuel : nat) (ds : list decl) (t : ctype) : ctype :=
  match fuel with
  | O => t
  | S f =>
      match t with
      | TyName n =>
          match lookup_typedef ds n with
          | Some t' => expand f ds t'
          | None => t
          end
      | TyConst t' => TyConst (expand f ds t')
      | TyPtr t' => TyPtr (expand f ds t')
      | _ => t
      end
  end.

(** A type is a chain of qualifiers and pointers that ends in a name;
    a typedef may only use names declared before it, so no chain is
    longer than the type and all typedefs together. *)
Definition enough (ds : list decl) (t : ctype) : nat :=
  type_size t + sum_list (map (fun p => type_size (snd p)) (typedefs ds)).

Definition resolve (ds : list decl) (t : ctype) : ctype :=
  expand (enough ds t) ds t.

(** A type is complete when its size is known: [void] never is, a struct
    is once its members are given, a pointer always is. *)
Fixpoint complete_resolved (ds : list decl) (t : ctype) : bool :=
  match t with
  | TyVoid => false
  | TyStruct tag => mem tag (struct_definitions ds)
  | TyPtr _ => true
  | TyConst t' => complete_resolved ds t'
  | TyName _ => false
  end.

Definition complete (ds : list decl) (t : ctype) : bool :=
  complete_resolved ds (resolve ds t).

Definition const_qualified (ds : list decl) (t : ctype) : bool :=
  match resolve ds t with
  | TyConst _ => true
  | _ => false
  end.

(** An lvalue may be assigned to when its type is complete and not
    const-qualified. *)
Definition modifiable (ds : list decl) (t : ctype) : bool :=
  complete ds t && negb (const_qualified ds t).

(** What a pointer points to. *)
Definition pointee (t : ctype) : option ctype :=
  match t with
  | TyPtr t' => Some t'
  | _ => None
  end.

End Decl.

Import Header Lex Cpp Decl.

(** ** The header, read *)

(** The sixteen lines of [snail.h] as the lexer reads them. *)
Definition header_lines : list line :=
  [ LIfndef "TREE_SITTER_SNAIL_H_";
    LDefine "TREE_SITTER_SNAIL_H_" [];
    LText [];
    LText [TIdent "typedef"; TIdent "struct"; TIdent "TSLanguage";
           TIdent "TSLanguage"; TPunct ";"];
    LText [];
    LIfdef "__cplusplus";
    LText [TIdent "extern"; TStr "C"; TPunct "{"];
    LEndif;
    LText [];
    LText [TIdent "const"; TIdent "TSLanguage"; TPunct "*";
           TIdent "tree_sitter_snail"; TPunct "("; TIdent "void";
           TPunct ")"; TPunct ";"];
    LText [];
    LIfdef "__cplusplus";
    LText [TPunct "}"];
    LEndif;
    LText [];
    LEndif ].

(** What stands between the guard's [#define] and its [#endif]. *)
Definition header_body : list line :=
  take 13 (drop 2 header_lines).

(** The type name the header introduces by
    [typedef struct TSLanguage TSLanguage]. *)
Definition TSLanguage : ctype := TyName "TSLanguage".

(** The accessor as the header declares it:
    [const TSLanguage *tree_sitter_snail(void)]. *)
Definition tree_sitter_snail : signature :=
  Signature "tree_sitter_snail" PVoid (TyPtr (TyConst TSLanguage)).

(** The text lines of the header that hold tokens. *)
Definition typedef_tokens : list token :=
  [TIdent "typedef"; TIdent "struct"; TIdent "TSLanguage";
   TIdent "TSLanguage"; TPunct ";"].

Definition linkage_open : list token :=
  [TIdent "extern"; TStr "C"; TPunct "{"].

Definition prototype_tokens : list token :=
  [TIdent "const"; TIdent "TSLanguage"; TPunct "*";
   TIdent "tree_sitter_snail"; TPunct "("; TIdent "void";
   TPunct ")"; TPunct ";"].

Definition linkage_close : list token := [TPunct "}"].

(** What a compiler is left with after preprocessing: the linkage block
    only where [__cplusplus] is defined. *)
Definition seen (cxx : bool) : list token :=
  typedef_tokens ++ (if cxx then linkage_open else [])
    ++ prototype_tokens ++ (if cxx then linkage_close else []).

(** The declarations of the header as a C and as a C++ compiler reads
    them. *)
Definition header_decls (cxx : bool) : list decl :=
  [ DTypedef (TyStruct "TSLanguage") "TSLanguage";
    DFunction (if cxx then Some "C" else None)
      (TyPtr (TyConst TSLanguage)) "tree_sitter_snail" PVoid ].

(** Every token of the file, directives included. *)
Definition file_tokens (text : string) : option (list token) :=
  mjoin <$> mapM lex_line (lines text).

Definition is_control_keyword (t : token) : bool :=
  match t with
  | TIdent x => mem x control_keywords
  | _ => false
  end.

(** *** Two other headers, for comparison *)

(** The same two declarations without a guard: a second inclusion passes
    them on a second time. *)
Definition unguarded : string :=
  "typedef struct TSLanguage TSLanguage;" +:+ nl +:+
  "const TSLanguage *tree_sitter_snail(void);".

(** A header that gives the struct its members and returns a pointer to
    a plain [TSLanguage]: the pointee is complete and can be assigned
    to. *)
Definition transparent : string :=
  "struct TSLanguage { unsigned version; };" +:+ nl +:+
  "typedef struct TSLanguage TSLanguage;" +:+ nl +:+
  "TSLanguage *tree_sitter_snail(void);".

(** *** Linkage and neighbours *)

(** The linkage block a function of the given name is declared in:
    [None] if no such function is declared, [Some None] if it is declared
    outside every block. *)
Definition function_linkage (ds : list decl) (n : string) : option (option string) :=
  head (omap (fun d => match d with
                       | DFunction l _ name _ | DFunctionDef l _ name _ _ =>
                           if String.eqb name n then Some l else None
                       | _ => None
                       end) ds).

(** Tokens of a client, passed on before the header is included:
    [void use_language(const TSLanguage *language);]. *)
Definition client_tokens : list token :=
  [TIdent "void"; TIdent "use_language"; TPunct "("; TIdent "const";
   TIdent "TSLanguage"; TPunct "*"; TIdent "language"; TPunct ")"; TPunct ";"].

(** *** Callers *)

(** What a caller can write with the handle in hand: the call itself,
    and from there dereference, subscript, address-of, member access and
    casts to pointer types. *)
Inductive expr : Type :=
  | Handle                              (* [tree_sitter_snail()] *)
  | Deref (e : expr)                    (* [*e] *)
  | Index (e : expr) (n : nat)          (* [e[n]] *)
  | AddrOf (e : expr)                   (* [&e] *)
  | Arrow (e : expr) (f : string)       (* [e->f] *)
  | Dot (e : expr) (f : string)         (* [e.f] *)
  | CastPtr (t : ctype) (e : expr).     (* a cast of [e] to pointer to [t] *)


(** A type without the qualifiers around it. *)
Fixpoint strip_const (t : ctype) : ctype :=
  match t with
  | TyConst t' => strip_const t'
  | _ => t
  end.

(** What a value of type [t] points to, if [t] is a pointer type. *)
Definition as_pointer (ds : list decl) (t : ctype) : option ctype :=
  match strip_const (resolve ds t) with
  | TyPtr p => Some p
  | _ => None
  end.

(** A type can be named where each of its typedef names is declared; a
    struct tag needs no declaration before it is mentioned. *)
Fixpoint well_formed (ds : list decl) (t : ctype) : bool :=
  match t with
  | TyName n => bool_decide (is_Some (lookup_typedef ds n))
  | TyConst t' | TyPtr t' => well_formed ds t'
  | TyVoid | TyStruct _ => true
  end.

(** One member declaration: specifiers, pointers, a name, a semicolon. *)
Definition parse_member (ts : list token) : option ((string * ctype) * list token) :=
  '(t, r) ← parse_spec ts;
  let '(t', r1) := parse_ptrs t r in
  '(name, r2) ← take_name r1;
  r3 ← eat_punct ";"%char r2;
  Some ((name, t'), r3).

Fixpoint parse_members (fuel : nat) (ts : list token) : option (list (string * ctype)) :=
  match fuel with
  | O => None
  | S f =>
      match ts with
      | [] => Some []
      | _ :: _ => '(m, r) ← parse_member ts; cons m <$> parse_members f r
      end
  end.

(** The members of a struct, where the unit gives them. *)
Definition struct_members (ds : list decl) (tag : string) : option (list (string * ctype)) :=
  ms ← head (omap (fun d => match d with
                             | DStructDef tag' ms =>
                                 if String.eqb tag' tag then Some ms else None
                             | _ => None
                             end) ds);
  parse_members (S (length ms)) ms.

(** The type of member [f] of an expression of type [t]: [t] has to be a
    struct whose members the unit gives, and a member of a
    const-qualified struct is const-qualified itself. *)
Definition member (ds : list decl) (t : ctype) (f : string) : option ctype :=
  match strip_const (resolve ds t) with
  | TyStruct tag =>
      ms ← struct_members ds tag;
      '(_, m) ← find (fun p => String.eqb (fst p) f) ms;
      Some (if const_qualified ds t then TyConst m else m)
  | _ => None
  end.

(** [type_of ds e]: the type of [e] and whether [e] is an lvalue, where
    the constraints of C let [e] be written at all.
    - The call needs the accessor declared and callable without
      arguments; its value is no lvalue.
    - [*e] needs a pointer and is an lvalue, of whatever type.
    - [e[n]] adds to the pointer first, which needs a complete pointee
      (GNU C also adds to a pointer to void; the result is of type void
      and cannot be assigned to either).
    - [&e] needs an lvalue.
    - [e->f] and [e.f] need the members of the struct.
    - A cast to a pointer type needs a pointer and a type that can be
      named; its value is no lvalue. *)
Fixpoint type_of (ds : list decl) (e : expr) : option (ctype * bool) :=
  match e with
  | Handle =>
      sig ← lookup_function ds "tree_sitter_snail";
      match sig_params sig with
      | PVoid | PUnspecified => Some (sig_ret sig, false)
      | PTypes _ => None
      end
  | Deref e' =>
      '(t, _) ← type_of ds e';
      p ← as_pointer ds t;
      Some (p, true)
  | Index e' _ =>
      '(t, _) ← type_of ds e';
      p ← as_pointer ds t;
      if complete ds p then Some (p, true) else None
  | AddrOf e' =>
      match type_of ds e' with
      | Some (t, true) => Some (TyPtr t, false)
      | _ => None
      end
  | Arrow e' f =>
      '(t, _) ← type_of ds e';
      p ← as_pointer ds t;
      m ← member ds p f;
      Some (m, true)
  | Dot e' f =>
      match type_of ds e' with
      | Some (t, lv) => m ← member ds t f; Some (m, lv)
      | None => None
      end
  | CastPtr t e' =>
      '(t', _) ← type_of ds e';
      _ ← as_pointer ds t';
      if well_formed ds t then Some (TyPtr t, false) else None
  end.

(** [e = ...] is accepted, as far as its left side goes, when [e] is a
    modifiable lvalue.  (C refuses a struct with a const member as well;
    nothing below rests on a struct being modifiable.) *)
Definition assignable (ds : list decl) (e : expr) : bool :=
  match type_of ds e with
  | Some (t, true) => modifiable ds t
  | _ => false
  end.




(** A header that shows the members of the struct; the handle is still
    a pointer to const. *)
Definition exposed : string :=
  "struct TSLanguage { void *table; };" +:+ nl +:+
  "typedef struct TSLanguage TSLanguage;" +:+ nl +:+
  "const TSLanguage *tree_sitter_snail(void);".

(** What [exposed] declares. *)
Definition exposed_decls : list decl :=
  [ DStructDef "TSLanguage" [TIdent "void"; TPunct "*"; TIdent "table"; TPunct ";"];
    DTypedef (TyStruct "TSLanguage") "TSLanguage";
    DFunction None (TyPtr (TyConst TSLanguage)) "tree_sitter_snail" PVoid ].

(** One step of the preprocessor on a known line. *)
Ltac pp_step :=
  cbn [of_option mbind result_bind pp_lines pp_line active conds defined out
       andb negb fst snd].

(** * Properties *)

(** ** Lines *)

Lemma lines_from_length (cur s : string) :
  length (lines_from cur s)
  = count_lf s + (if is_empty (last_segment cur s) then 0 else 1).
Proof.
  revert cur. induction s as [|c r IHr]; intros cur; simpl.
  - by destruct (is_empty cur).
  - destruct (Ascii.eqb c LF); simpl; by rewrite IHr.
Qed.

(** A text has a line for each line feed, and one more if it does not
    end in one. *)
Lemma lines_length (s : string) :
  length (lines s)
  = count_lf s + (if is_empty (last_segment EmptyString s) then 0 else 1).
Proof. apply lines_from_length. Qed.

Lemma snail_h_bytes : String.length snail_h = 241.
Proof. reflexivity. Qed.

Lemma snail_h_line_feeds : count_lf snail_h = 15.
Proof. reflexivity. Qed.

Lemma snail_h_last_line :
  last_segment EmptyString snail_h = "#endif // TREE_SITTER_SNAIL_H_".
Proof. reflexivity. Qed.

(** C9: the header is exactly 16 lines long: fifteen lines that end in a
    line feed and the closing [#endif], which does not. *)
Theorem snail_h_sixteen_lines : length (lines snail_h) = 16.
Proof.
  rewrite lines_length, snail_h_line_feeds, snail_h_last_line. reflexivity.
Qed.

Example lines_terminated : lines ("a" +:+ nl +:+ "b" +:+ nl) = ["a"; "b"].
Proof. reflexivity. Qed.

Example lines_unterminated : lines ("a" +:+ nl +:+ "b") = ["a"; "b"].
Proof. reflexivity. Qed.

(** ** Reading *)

Lemma read_snail_h : read_file snail_h = Some header_lines.
Proof. vm_compute. reflexivity. Qed.

Lemma text_identifiers_snail_h :
  text_identifiers snail_h =
    ["typedef"; "struct"; "TSLanguage"; "TSLanguage"; "extern"; "const";
     "TSLanguage"; "tree_sitter_snail"; "void"].
Proof. vm_compute. reflexivity. Qed.

Lemma header_lines_guarded : header_lines = guarded TREE_SITTER_SNAIL_H_ header_body.
Proof. reflexivity. Qed.

Lemma header_body_balanced : balanced 0 header_body = true.
Proof. reflexivity. Qed.

(** ** Conditional inclusion *)

Lemma is_defined_true (env : gset string) (x : string) :
  x ∈ env → is_defined env x = true.
Proof. intros H. unfold is_defined. by apply bool_decide_eq_true_2. Qed.

Lemma is_defined_false (env : gset string) (x : string) :
  x ∉ env → is_defined env x = false.
Proof. intros H. unfold is_defined. by apply bool_decide_eq_false_2. Qed.

Lemma is_defined_elem (env : gset string) (x : string) :
  is_defined env x = true ↔ x ∈ env.
Proof. unfold is_defined. apply bool_decide_eq_true. Qed.

Lemma is_defined_add_ne (env : gset string) (g x : string) :
  g ≠ x → is_defined ({[ g ]} ∪ env) x = is_defined env x.
Proof.
  intros Hne. unfold is_defined. apply bool_decide_ext.
  rewrite elem_of_union, elem_of_singleton.
  split; [intros [->|Hx]; done|by right].
Qed.

Lemma macro_in_none (env : gset string) (ts : list token) :
  Forall (fun x => x ∉ env) (identifiers_of ts) → macro_in env ts = None.
Proof.
  induction ts as [|t r IH]; [done|]. intros H.
  destruct t as [x| |]; simpl in *; try by apply IH.
  apply Forall_cons in H as [Hx Hr].
  rewrite (is_defined_false _ _ Hx). by apply IH.
Qed.

Lemma macro_in_some (env : gset string) (ts : list token) (x : string) :
  macro_in env ts = Some x → x ∈ env ∧ x ∈ identifiers_of ts.
Proof.
  induction ts as [|t r IHr]; [done|].
  destruct t as [y| |]; simpl; [|exact IHr..].
  destruct (is_defined env y) eqn:E.
  - intros [= ->]. apply is_defined_elem in E. split; [done|]. apply list_elem_of_here.
  - intros Hr. destruct (IHr Hr) as [? ?]. split; [done|]. by apply list_elem_of_further.
Qed.

Lemma pp_lines_app (st : state) (l1 l2 : list line) :
  pp_lines st (l1 ++ l2) = st' ← pp_lines st l1; pp_lines st' l2.
Proof.
  revert st. induction l1 as [|l r IH]; intros st; [done|]. simpl.
  destruct (pp_line st l) as [st'|e]; simpl; [apply IH|done].
Qed.

(** The preprocessor only ever adds to the macros defined. *)
Lemma pp_line_defined (st st' : state) (l : line) :
  pp_line st l = Ok st' → defined st ⊆ defined st'.
Proof.
  destruct l; simpl; repeat case_match; intros [= <-]; simpl; set_solver.
Qed.

Lemma pp_lines_defined (ls : list line) (st st' : state) :
  pp_lines st ls = Ok st' → defined st ⊆ defined st'.
Proof.
  revert st. induction ls as [|l r IHr]; intros st; simpl.
  - by intros [= <-].
  - destruct (pp_line st l) as [st1|e] eqn:E; simpl; [|done].
    intros Hr. apply pp_line_defined in E. apply IHr in Hr.
    by transitivity (defined st1).
Qed.

(** Inside a group that is not taken nothing happens: balanced lines are
    read without a change to the macros or to the output, whatever they
    are, and leave the group as they found it. *)
Lemma pp_lines_skipped (ls : list line) :
  ∀ (inner cs : list bool) (env : gset string) (o : list token),
    balanced (length inner) ls = true →
    Forall (fun b => b = false) inner →
    pp_lines (State env (inner ++ false :: cs) o) ls
    = Ok (State env (false :: cs) o).
Proof.
  induction ls as [|l r IH]; intros inner cs env o Hb Hin.
  - destruct inner; [done|discriminate].
  - assert (Hact : active (State env (inner ++ false :: cs) o) = false).
    { destruct Hin; [done|]. simpl. done. }
    destruct l; simpl in *; rewrite ?Hact; simpl.
    + apply (IH (false :: inner)); [done|by constructor].
    + apply (IH (false :: inner)); [done|by constructor].
    + by apply IH.
    + destruct inner as [|b inner]; [done|]. simpl.
      apply Forall_cons in Hin as [_ Hin]. by apply IH.
    + by apply IH.
Qed.

Lemma pp_lines_skipped_group (ls : list line) (cs : list bool)
    (env : gset string) (o : list token) :
  balanced 0 ls = true →
  pp_lines (State env (false :: cs) o) ls = Ok (State env (false :: cs) o).
Proof. intros Hb. by apply (pp_lines_skipped ls [] cs). Qed.

(** *** Include guards *)

Section guard.
Variable g : string.
Variable body : list line.
Hypothesis body_balanced : balanced 0 body = true.

(** With the guard defined the file is passed over. *)
Lemma guarded_skipped (env : gset string) (o : list token) :
  g ∈ env → include_lines (guarded g body) (env, o) = Ok (env, o).
Proof.
  intros Hg. unfold include_lines, guarded. simpl.
  rewrite (is_defined_true _ _ Hg). simpl.
  rewrite pp_lines_app.
  rewrite (pp_lines_skipped_group body [] env o body_balanced).
  reflexivity.
Qed.

(** With the guard not yet defined the file either fails or leaves the
    guard defined. *)
Lemma guarded_defines (env env' : gset string) (o o' : list token) :
  include_lines (guarded g body) (env, o) = Ok (env', o') → g ∈ env'.
Proof.
  unfold include_lines, guarded. simpl.
  destruct (is_defined env g) eqn:Eg; simpl.
  - apply is_defined_elem in Eg.
    rewrite pp_lines_app.
    rewrite (pp_lines_skipped_group body [] env o body_balanced).
    simpl. by intros [= <- _].
  - destruct (pp_lines _ (body ++ [LEndif])) as [st|e] eqn:E; simpl; [|done].
    apply pp_lines_defined in E. simpl in E.
    destruct (conds st); [|done]. intros [= <- _].
    apply E. apply elem_of_union_l. by apply elem_of_singleton.
Qed.

(** A second inclusion changes nothing. *)
Lemma guarded_twice (acc : gset string * list token) :
  (acc' ← include_lines (guarded g body) acc; include_lines (guarded g body) acc')
  = include_lines (guarded g body) acc.
Proof.
  destruct acc as [env o].
  destruct (include_lines (guarded g body) (env, o)) as [[env' o']|e] eqn:E;
    simpl; [|done].
  apply guarded_skipped. by eapply guarded_defines.
Qed.
End guard.

(** Any number of inclusions of a guarded file amounts to one. *)
Lemma include_times_guarded (text g : string) (body : list line) :
  read_file text = Some (guarded g body) →
  balanced 0 body = true →
  ∀ (n : nat) (acc : gset string * list token),
    include_times (S n) text acc = include text acc.
Proof.
  intros Hread Hbal.
  assert (Hinc : ∀ acc, include text acc = include_lines (guarded g body) acc).
  { intros acc. unfold include. by rewrite Hread. }
  induction n as [|n IHn]; intros acc.
  - simpl. by destruct (include text acc).
  - change (include_times (S (S n)) text acc)
      with (acc' ← include text acc; include_times (S n) text acc').
    destruct (include text acc) as [[env' o']|e] eqn:E; [|done].
    change (include_times (S n) text (env', o') = Ok (env', o')).
    rewrite IHn, Hinc. rewrite Hinc in E. destruct acc as [env o].
    apply guarded_skipped; [done|]. by eapply guarded_defines.
Qed.

(** *** The header *)


Lemma untouched_snail_h (env : gset string) :
  untouched env snail_h ↔
    ("typedef" ∉ env) ∧ ("struct" ∉ env) ∧ ("TSLanguage" ∉ env)
    ∧ ("extern" ∉ env) ∧ ("const" ∉ env) ∧ ("tree_sitter_snail" ∉ env)
    ∧ ("void" ∉ env).
Proof.
  unfold untouched. rewrite text_identifiers_snail_h.
  rewrite !Forall_cons, Forall_nil. tauto.
Qed.

(** The first inclusion: the guard gets defined and the declarations are
    passed on. *)
Lemma include_snail_h_first (env : gset string) (o : list token) :
  TREE_SITTER_SNAIL_H_ ∉ env → untouched env snail_h →
  include snail_h (env, o)
  = Ok ({[ TREE_SITTER_SNAIL_H_ ]} ∪ env, (o ++ seen (is_defined env "__cplusplus"))%list).
Proof.
  unfold TREE_SITTER_SNAIL_H_. intros Hg Hun. apply untouched_snail_h in Hun.
  destruct Hun as (Htypedef & Hstruct & Hts & Hextern & Hconst & Hacc & Hvoid).
  set (env' := {[ "TREE_SITTER_SNAIL_H_" ]} ∪ env).
  assert (Hadd : ∀ x, "TREE_SITTER_SNAIL_H_" ≠ x → x ∉ env → x ∉ env').
  { intros x Hne Hx. unfold env'. rewrite not_elem_of_union, not_elem_of_singleton. done. }
  assert (H1 : macro_in env' typedef_tokens = None).
  { apply macro_in_none. repeat constructor; by apply Hadd. }
  assert (H2 : macro_in env' linkage_open = None).
  { apply macro_in_none. repeat constructor; by apply Hadd. }
  assert (H3 : macro_in env' prototype_tokens = None).
  { apply macro_in_none. repeat constructor; by apply Hadd. }
  assert (Hcxx : is_defined env' "__cplusplus" = is_defined env "__cplusplus").
  { by apply is_defined_add_ne. }
  assert (H0 : macro_in env' [] = None) by reflexivity.
  assert (H4 : macro_in env' linkage_close = None) by reflexivity.
  unfold typedef_tokens, linkage_open, prototype_tokens, linkage_close in H1, H2, H3, H4.
  unfold include. rewrite read_snail_h.
  unfold include_lines, header_lines. pp_step.
  rewrite (is_defined_false _ _ Hg). fold env'.
  destruct (is_defined env "__cplusplus");
    repeat (progress (pp_step; rewrite ?H0, ?H1, ?H2, ?H3, ?H4, ?Hcxx));
    unfold seen; do 2 f_equal; rewrite ?app_nil_r, <- ?app_assoc; reflexivity.
Qed.

Lemma include_times_snail_h (n : nat) (acc : gset string * list token) :
  include_times (S n) snail_h acc = include snail_h acc.
Proof.
  apply (include_times_guarded snail_h TREE_SITTER_SNAIL_H_ header_body).
  - exact read_snail_h.
  - exact header_body_balanced.
Qed.

Lemma translation_unit_times (env : gset string) (n : nat) :
  translation_unit env (S n) snail_h = translation_unit env 1 snail_h.
Proof.
  unfold translation_unit, preprocess. by rewrite !include_times_snail_h.
Qed.

Lemma declarations_seen (cxx : bool) :
  declarations (seen cxx) = Some (header_decls cxx).
Proof. destruct cxx; vm_compute; reflexivity. Qed.

(** What the header declares where its guard is not yet defined. *)
Lemma translation_unit_snail_h (env : gset string) (n : nat) :
  TREE_SITTER_SNAIL_H_ ∉ env → untouched env snail_h →
  translation_unit env (S n) snail_h
  = Ok (header_decls (is_defined env "__cplusplus")).
Proof.
  intros Hg Hun. rewrite translation_unit_times.
  unfold translation_unit, preprocess.
  change (include_times 1 snail_h (env, [])) with
    (acc' ← include snail_h (env, []); Ok acc').
  rewrite (include_snail_h_first env [] Hg Hun).
  cbn [mbind result_bind app]. by rewrite declarations_seen.
Qed.

(** Where the guard is defined the header declares nothing. *)
Lemma translation_unit_snail_h_guarded (env : gset string) (n : nat) :
  TREE_SITTER_SNAIL_H_ ∈ env → translation_unit env (S n) snail_h = Ok [].
Proof.
  intros Hg. rewrite translation_unit_times.
  unfold translation_unit, preprocess.
  change (include_times 1 snail_h (env, [])) with
    (acc' ← include snail_h (env, []); Ok acc').
  unfold include. rewrite read_snail_h, header_lines_guarded.
  cbn [of_option mbind result_bind].
  by rewrite (guarded_skipped TREE_SITTER_SNAIL_H_ header_body header_body_balanced env [] Hg).
Qed.

(** *** What the guard and the missing member list are for *)

Example unguarded_twice :
  (functions <$> translation_unit ∅ 2 unguarded)
  = Ok [tree_sitter_snail; tree_sitter_snail].
Proof. vm_compute. reflexivity. Qed.

Example transparent_modifiable :
  (ds ← translation_unit ∅ 1 transparent;
   Ok (struct_definitions ds, complete ds TSLanguage, modifiable ds TSLanguage,
       modifiable ds (TyConst TSLanguage)))
  = Ok (["TSLanguage"], true, true, false).
Proof. vm_compute. reflexivity. Qed.

(** ** The claims about the header *)

(** C1: the header declares exactly one function, [tree_sitter_snail],
    which takes no arguments ([(void)]) and returns a pointer to const
    [TSLanguage]; nothing else a linker could resolve is declared.  This
    holds for a C and for a C++ compiler, and however often the header is
    included, as long as its guard is not defined beforehand and none of
    its words is a macro. *)
Theorem tree_sitter_snail_only_entry_point (env : gset string) (n : nat) :
  TREE_SITTER_SNAIL_H_ ∉ env → untouched env snail_h →
  ∃ ds : list decl,
    translation_unit env (S n) snail_h = Ok ds
    ∧ functions ds = [tree_sitter_snail]
    ∧ entry_points ds = [sig_name tree_sitter_snail]
    ∧ sig_params tree_sitter_snail = PVoid
    ∧ sig_ret tree_sitter_snail = TyPtr (TyConst TSLanguage).
Proof.
  intros Hg Hun. eexists. split; [by apply translation_unit_snail_h|].
  by destruct (is_defined env "__cplusplus").
Qed.

Lemma tree_sitter_snail_only_entry_point_witness :
  (TREE_SITTER_SNAIL_H_ ∉ ({[ "__cplusplus" ]} : gset string))
  ∧ untouched {[ "__cplusplus" ]} snail_h
  ∧ (∃ ds : list decl,
    translation_unit {[ "__cplusplus" ]} 2 snail_h = Ok ds
    ∧ functions ds = [tree_sitter_snail]
    ∧ entry_points ds = [sig_name tree_sitter_snail]
    ∧ sig_params tree_sitter_snail = PVoid
    ∧ sig_ret tree_sitter_snail = TyPtr (TyConst TSLanguage)).
Proof.
  assert (Hg : TREE_SITTER_SNAIL_H_ ∉ ({[ "__cplusplus" ]} : gset string))
    by (unfold TREE_SITTER_SNAIL_H_; compute_done).
  assert (Hun : untouched {[ "__cplusplus" ]} snail_h) by (unfold untouched; compute_done).
  split; [exact Hg|]. split; [exact Hun|].
  exact (tree_sitter_snail_only_entry_point {[ "__cplusplus" ]} 1 Hg Hun).
Defined.

(** C2: the header holds no algorithmic logic, no control flow and no
    data structure: no token of the file is a statement keyword, no
    function has a body, no object is declared, and the one type
    introduced is [struct TSLanguage], declared forward through its
    typedef and given no member list anywhere. *)
Theorem header_declarations_only (env : gset string) (n : nat) :
  TREE_SITTER_SNAIL_H_ ∉ env → untouched env snail_h →
  (∃ ts : list token,
      file_tokens snail_h = Some ts ∧ existsb is_control_keyword ts = false)
  ∧ ∃ ds : list decl,
      translation_unit env (S n) snail_h = Ok ds
      ∧ bodies ds = []
      ∧ objects ds = []
      ∧ typedefs ds = [("TSLanguage", TyStruct "TSLanguage")]
      ∧ struct_forward_declarations ds = ["TSLanguage"]
      ∧ struct_definitions ds = [].
Proof.
  intros Hg Hun. split; [eexists; split; by vm_compute|].
  eexists. split; [by apply translation_unit_snail_h|].
  by destruct (is_defined env "__cplusplus").
Qed.

Lemma header_declarations_only_witness :
  (TREE_SITTER_SNAIL_H_ ∉ (∅ : gset string))
  ∧ untouched ∅ snail_h
  ∧ ((∃ ts : list token,
      file_tokens snail_h = Some ts ∧ existsb is_control_keyword ts = false)
  ∧ ∃ ds : list decl,
      translation_unit ∅ 1 snail_h = Ok ds
      ∧ bodies ds = []
      ∧ objects ds = []
      ∧ typedefs ds = [("TSLanguage", TyStruct "TSLanguage")]
      ∧ struct_forward_declarations ds = ["TSLanguage"]
      ∧ struct_definitions ds = []).
Proof.
  assert (Hg : TREE_SITTER_SNAIL_H_ ∉ (∅ : gset string))
    by (unfold TREE_SITTER_SNAIL_H_; compute_done).
  assert (Hun : untouched ∅ snail_h) by (unfold untouched; compute_done).
  split; [exact Hg|]. split; [exact Hun|].
  exact (header_declarations_only ∅ 0 Hg Hun).
Defined.

(** *** Callers of the accessor *)





Example exposed_read : translation_unit ∅ 1 exposed = Ok exposed_decls.
Proof. vm_compute. reflexivity. Qed.

Example exposed_member_const :
  (ds ← translation_unit ∅ 1 exposed;
   Ok (type_of ds (Arrow Handle "table"), assignable ds (Arrow Handle "table"),
       assignable ds (Arrow (CastPtr TSLanguage Handle) "table")))
  = Ok (Some (TyConst (TyPtr TyVoid), true), false, true).
Proof. vm_compute. reflexivity. Qed.





(** ** Further properties of the header *)

(** *** Linkage *)

(** X1: the linkage block of lines 6 to 8 and 12 to 14 reaches the
    compiler exactly where [__cplusplus] is defined.  There the tokens
    passed on are the typedef, then the opening of the block, the
    prototype and the closing brace, and the accessor is declared with C
    linkage; elsewhere they are the typedef and the prototype, and the
    accessor is declared outside every linkage block.  In both cases the
    typedef comes before anything of the block. *)
Theorem accessor_linkage (env : gset string) (n : nat) :
  TREE_SITTER_SNAIL_H_ ∉ env → untouched env snail_h →
  ∃ (env' : gset string) (ts : list token) (ds : list decl),
    preprocess env (S n) snail_h = Ok (env', ts)
    ∧ ts = (typedef_tokens
            ++ (if is_defined env "__cplusplus"
                then linkage_open ++ prototype_tokens ++ linkage_close
                else prototype_tokens))%list
    ∧ declarations ts = Some ds
    ∧ translation_unit env (S n) snail_h = Ok ds
    ∧ function_linkage ds "tree_sitter_snail"
      = Some (if is_defined env "__cplusplus" then Some "C" else None).
Proof.
  intros Hg Hun.
  exists ({[ TREE_SITTER_SNAIL_H_ ]} ∪ env), (seen (is_defined env "__cplusplus")),
    (header_decls (is_defined env "__cplusplus")).
  split.
  { unfold preprocess. rewrite include_times_snail_h.
    by rewrite (include_snail_h_first env [] Hg Hun). }
  split; [by destruct (is_defined env "__cplusplus")|].
  split; [apply declarations_seen|].
  split; [by apply translation_unit_snail_h|].
  by destruct (is_defined env "__cplusplus").
Qed.

Lemma accessor_linkage_witness :
  (TREE_SITTER_SNAIL_H_ ∉ ({[ "__cplusplus" ]} : gset string))
  ∧ untouched {[ "__cplusplus" ]} snail_h
  ∧ ∃ (env' : gset string) (ts : list token) (ds : list decl),
      preprocess {[ "__cplusplus" ]} 1 snail_h = Ok (env', ts)
      ∧ ts = (typedef_tokens
              ++ (if is_defined {[ "__cplusplus" ]} "__cplusplus"
                  then linkage_open ++ prototype_tokens ++ linkage_close
                  else prototype_tokens))%list
      ∧ declarations ts = Some ds
      ∧ translation_unit {[ "__cplusplus" ]} 1 snail_h = Ok ds
      ∧ function_linkage ds "tree_sitter_snail"
        = Some (if is_defined {[ "__cplusplus" ]} "__cplusplus"
                then Some "C" else None).
Proof.
  assert (Hg : TREE_SITTER_SNAIL_H_ ∉ ({[ "__cplusplus" ]} : gset string))
    by (unfold TREE_SITTER_SNAIL_H_; compute_done).
  assert (Hun : untouched {[ "__cplusplus" ]} snail_h)
    by (unfold untouched; compute_done).
  split; [exact Hg|]. split; [exact Hun|].
  exact (accessor_linkage {[ "__cplusplus" ]} 0 Hg Hun).
Defined.

(** *** The guard *)

(** X2: where the guard is defined on entry the header is passed over
    whole, whatever else is defined: the inclusion succeeds, defines
    nothing, passes no token on, and the translation unit made of such
    inclusions declares nothing. *)
Theorem defined_guard_skips_header (env : gset string) (o : list token) (n : nat) :
  TREE_SITTER_SNAIL_H_ ∈ env →
  include_times (S n) snail_h (env, o) = Ok (env, o)
  ∧ translation_unit env (S n) snail_h = Ok [].
Proof.
  intros Hg. split; [|by apply translation_unit_snail_h_guarded].
  rewrite include_times_snail_h.
  unfold include. rewrite read_snail_h, header_lines_guarded.
  cbn [of_option mbind result_bind].
  by apply guarded_skipped; [exact header_body_balanced|].
Qed.

Lemma defined_guard_skips_header_witness :
  (TREE_SITTER_SNAIL_H_ ∈ ({[ TREE_SITTER_SNAIL_H_; "void" ]} : gset string))
  ∧ include_times 3 snail_h ({[ TREE_SITTER_SNAIL_H_; "void" ]}, client_tokens)
    = Ok ({[ TREE_SITTER_SNAIL_H_; "void" ]}, client_tokens)
  ∧ translation_unit {[ TREE_SITTER_SNAIL_H_; "void" ]} 3 snail_h = Ok [].
Proof.
  assert (Hg : TREE_SITTER_SNAIL_H_ ∈ ({[ TREE_SITTER_SNAIL_H_; "void" ]} : gset string))
    by (unfold TREE_SITTER_SNAIL_H_; compute_done).
  split; [exact Hg|].
  exact (defined_guard_skips_header {[ TREE_SITTER_SNAIL_H_; "void" ]} client_tokens 2 Hg).
Defined.


(** X3: where none of the words of the header is a macro, an inclusion
    always succeeds; it leaves the macros as they were but for the
    guard, now defined, and the tokens passed on before it in place,
    and adds after them nothing if the guard was defined, and else the
    tokens of its declarations, with the linkage block where
    [__cplusplus] is defined. *)
Theorem inclusion_adds_guard_only (env : gset string) (o : list token) :
  untouched env snail_h →
  include snail_h (env, o)
  = Ok ({[ TREE_SITTER_SNAIL_H_ ]} ∪ env,
        (o ++ (if is_defined env TREE_SITTER_SNAIL_H_ then []
               else seen (is_defined env "__cplusplus")))%list).
Proof.
  intros Hun. destruct (is_defined env TREE_SITTER_SNAIL_H_) eqn:Eg.
  - apply is_defined_elem in Eg.
    unfold include. rewrite read_snail_h, header_lines_guarded.
    cbn [of_option mbind result_bind].
    rewrite (guarded_skipped TREE_SITTER_SNAIL_H_ header_body header_body_balanced env o Eg).
    rewrite app_nil_r. do 2 f_equal.
    symmetry. apply subseteq_union_1_L. by apply singleton_subseteq_l.
  - apply include_snail_h_first; [|done].
    intros Hin. apply is_defined_elem in Hin. congruence.
Qed.

Lemma inclusion_adds_guard_only_witness :
  untouched {[ "SNAIL_CLIENT"; "__cplusplus" ]} snail_h
  ∧ include snail_h ({[ "SNAIL_CLIENT"; "__cplusplus" ]}, client_tokens)
    = Ok ({[ TREE_SITTER_SNAIL_H_ ]} ∪ {[ "SNAIL_CLIENT"; "__cplusplus" ]},
          (client_tokens
           ++ (if is_defined {[ "SNAIL_CLIENT"; "__cplusplus" ]} TREE_SITTER_SNAIL_H_
               then []
               else seen (is_defined {[ "SNAIL_CLIENT"; "__cplusplus" ]}
                            "__cplusplus")))%list).
Proof.
  assert (Hun : untouched {[ "SNAIL_CLIENT"; "__cplusplus" ]} snail_h)
    by (unfold untouched; compute_done).
  split; [exact Hun|].
  exact (inclusion_adds_guard_only {[ "SNAIL_CLIENT"; "__cplusplus" ]} client_tokens Hun).
Defined.

(** *** The const of the return type *)








